(** * uuidv47: UUIDv7 <-> UUIDv4 facade, a shallow embedding of [uuid47.go]

    The Go package masks the 48-bit timestamp of a UUIDv7 with a SipHash-2-4
    value computed from the identifier's own random bits.  This file embeds
    the package's functions as Rocq functions and proves the properties the
    specification states about them.

    Conventions of the embedding
    - a Go [byte] is a [Z] in [0, 256); a [uint64] is a [Z] in [0, 2^64), and
      every operation that can leave that interval in [Z] has its wrap-around
      written out ([mod 2^64], [mod 256]);
    - a Go [int] (lengths, loop counters, [hexval]'s result) is a [Z]; the
      lengths and positions met here are far below 2^63, so no wrap-around
      is written for them;
    - [[16]byte], [[]byte] and [string] are lists of bytes;
    - an index expression whose index is checked at run time (slices, strings,
      arrays indexed by a variable) is fallible and lives in the [exec] monad,
      where [Panic] is Go's run-time panic; an array indexed by a constant is
      checked by the Go compiler and is read with a total accessor. *)

From Stdlib Require Import String Ascii.
From Stdlib Require Import ZArith List Bool Lia Btauto.
From coqutil Require Import Z.bitblast.
Import ListNotations.

Local Open Scope Z_scope.

(** ** Execution monad: a result, a run-time panic, or exhausted fuel *)

Inductive exec (A : Type) : Type :=
| Done (a : A)
| Panic
| OutOfFuel.

Arguments Done {A} a.
Arguments Panic {A}.
Arguments OutOfFuel {A}.

Definition bind {A B : Type} (m : exec A) (k : A -> exec B) : exec B :=
  match m with
  | Done a => k a
  | Panic => Panic
  | OutOfFuel => OutOfFuel
  end.

Notation "x <- m ;; k" := (bind m (fun x => k))
  (at level 61, m at next level, right associativity).

(** ** Machine integers *)

Definition is_byte (b : Z) : Prop := 0 <= b < 256.
Definition is_u64 (x : Z) : Prop := 0 <= x < 2 ^ 64.

(** [byte(x)]: conversion to an 8-bit value. *)
Definition byte (x : Z) : Z := x mod 256.

(** [uint64] addition and left shift wrap around. *)
Definition add64 (a b : Z) : Z := (a + b) mod 2 ^ 64.
Definition shl64 (a n : Z) : Z := (Z.shiftl a n) mod 2 ^ 64.

(** ** Slices, arrays and strings *)

Definition len {A : Type} (l : list A) : Z := Z.of_nat (List.length l).

(** [l[i]] with its run-time bounds check. *)
Definition index (l : list Z) (i : Z) : exec Z :=
  if (i <? 0) || (len l <=? i) then Panic
  else match nth_error l (Z.to_nat i) with
       | Some x => Done x
       | None => Panic
       end.

(** Total update of position [n]; lists too short are left as they are. *)
Fixpoint upd (n : nat) (v : Z) (l : list Z) {struct l} : list Z :=
  match l, n with
  | [], _ => []
  | _ :: t, O => v :: t
  | h :: t, S n' => h :: upd n' v t
  end.

(** [l[i] = v] with its run-time bounds check. *)
Definition store (l : list Z) (i : Z) (v : Z) : exec (list Z) :=
  if (i <? 0) || (len l <=? i) then Panic
  else Done (upd (Z.to_nat i) v l).

(** [l[i:]] with its run-time bounds check. *)
Definition slice_from (l : list Z) (i : Z) : exec (list Z) :=
  if (i <? 0) || (len l <? i) then Panic
  else Done (skipn (Z.to_nat i) l).

(** The bytes of a string literal. *)
Definition bytes_of (s : string) : list Z :=
  map (fun c => Z.of_N (N_of_ascii c)) (list_ascii_of_string s).

(** ** Data model *)

(** [type UUID [16]byte] *)
Definition UUID := list Z.

Definition wf_uuid (u : UUID) : Prop :=
  List.length u = 16%nat /\ Forall is_byte u.

(** [UUID{}], the zero value. *)
Definition UUID_zero : UUID := repeat 0 16.

(** [u[i]] for a constant [i] below 16. *)
Definition at_ (u : list Z) (i : nat) : Z := nth i u 0.

(** [type Key struct { K0, K1 uint64 }] *)
Record Key : Type := mkKey { K0 : Z; K1 : Z }.

Definition wf_key (k : Key) : Prop := is_u64 (K0 k) /\ is_u64 (K1 k).

Inductive error : Type :=
| ErrInvalidLength
| ErrInvalidFormat
| ErrInvalidHex
| ErrInvalidVersion
| ErrInvalidByteSlice.

(** ** Byte-order helpers *)

(** [rd64le]: the slice elements are read left to right, [p[0]] first. *)
Definition rd64le (p : list Z) : exec Z :=
  p0 <- index p 0 ;; p1 <- index p 1 ;; p2 <- index p 2 ;; p3 <- index p 3 ;;
  p4 <- index p 4 ;; p5 <- index p 5 ;; p6 <- index p 6 ;; p7 <- index p 7 ;;
  Done (Z.lor (Z.lor (Z.lor (Z.lor (Z.lor (Z.lor (Z.lor
        p0 (shl64 p1 8)) (shl64 p2 16)) (shl64 p3 24)) (shl64 p4 32))
        (shl64 p5 40)) (shl64 p6 48)) (shl64 p7 56)).

Definition wr48be (dst : list Z) (v48 : Z) : exec (list Z) :=
  dst <- store dst 0 (byte (Z.shiftr v48 40)) ;;
  dst <- store dst 1 (byte (Z.shiftr v48 32)) ;;
  dst <- store dst 2 (byte (Z.shiftr v48 24)) ;;
  dst <- store dst 3 (byte (Z.shiftr v48 16)) ;;
  dst <- store dst 4 (byte (Z.shiftr v48 8)) ;;
  dst <- store dst 5 (byte (Z.shiftr v48 0)) ;;
  Done dst.

Definition rd48be (src : list Z) : exec Z :=
  s0 <- index src 0 ;; s1 <- index src 1 ;; s2 <- index src 2 ;;
  s3 <- index src 3 ;; s4 <- index src 4 ;; s5 <- index src 5 ;;
  Done (Z.lor (Z.lor (Z.lor (Z.lor (Z.lor
        (shl64 s0 40) (shl64 s1 32)) (shl64 s2 24)) (shl64 s3 16))
        (shl64 s4 8)) (shl64 s5 0)).

Definition rotl64 (x b : Z) : Z :=
  Z.lor (shl64 x b) (Z.shiftr x (64 - b)).

(** ** SipHash-2-4 *)

Definition sipstate : Type := (Z * Z * Z * Z)%type.

(** One SipRound: the body shared by the three [for range] loops of
    [siphash24]. *)
Definition sipround (v : sipstate) : sipstate :=
  let '(v0, v1, v2, v3) := v in
  let v0 := add64 v0 v1 in
  let v2 := add64 v2 v3 in
  let v1 := rotl64 v1 13 in
  let v3 := rotl64 v3 16 in
  let v1 := Z.lxor v1 v0 in
  let v3 := Z.lxor v3 v2 in
  let v0 := rotl64 v0 32 in
  let v2 := add64 v2 v1 in
  let v0 := add64 v0 v3 in
  let v1 := rotl64 v1 17 in
  let v3 := rotl64 v3 21 in
  let v1 := Z.lxor v1 v2 in
  let v3 := Z.lxor v3 v0 in
  let v2 := rotl64 v2 32 in
  (v0, v1, v2, v3).

(** [for range n { body }] *)
Definition rounds (n : nat) (v : sipstate) : sipstate := Nat.iter n sipround v.

(** [for i := 0; i < end; i += 8 { ... }], started at [i]. *)
Fixpoint sip_blocks (fuel : nat) (inp : list Z) (endp i : Z) (v : sipstate)
  : exec sipstate :=
  if i <? endp then
    match fuel with
    | O => OutOfFuel
    | S fuel' =>
        p <- slice_from inp i ;;
        m <- rd64le p ;;
        let '(v0, v1, v2, v3) := v in
        let v3 := Z.lxor v3 m in
        let '(v0, v1, v2, v3) := rounds 2 (v0, v1, v2, v3) in
        let v0 := Z.lxor v0 m in
        sip_blocks fuel' inp endp (i + 8) (v0, v1, v2, v3)
    end
  else Done v.

(** One arm of the [switch inlen & 7] with [fallthrough]: the statement of
    [case j] runs exactly when the switch enters at a case [r >= j]. *)
Definition sip_tail_case (inp : list Z) (endp r j : Z) (t : Z) : exec Z :=
  if j <=? r then
    c <- index inp (endp + (j - 1)) ;;
    Done (Z.lor t (shl64 c (8 * (j - 1))))
  else Done t.

Definition sip_tail (inp : list Z) (endp r : Z) : exec Z :=
  let t := 0 in
  t <- sip_tail_case inp endp r 7 t ;;
  t <- sip_tail_case inp endp r 6 t ;;
  t <- sip_tail_case inp endp r 5 t ;;
  t <- sip_tail_case inp endp r 4 t ;;
  t <- sip_tail_case inp endp r 3 t ;;
  t <- sip_tail_case inp endp r 2 t ;;
  t <- sip_tail_case inp endp r 1 t ;;
  Done t.

Definition siphash24_fuel (fuel : nat) (inp : list Z) (k0 k1 : Z) : exec Z :=
  let v0 := Z.lxor 0x736f6d6570736575 k0 in
  let v1 := Z.lxor 0x646f72616e646f6d k1 in
  let v2 := Z.lxor 0x6c7967656e657261 k0 in
  let v3 := Z.lxor 0x7465646279746573 k1 in
  let inlen := len inp in
  let endp := Z.ldiff inlen 7 in
  let b := shl64 inlen 56 in
  v <- sip_blocks fuel inp endp 0 (v0, v1, v2, v3) ;;
  t <- sip_tail inp endp (Z.land inlen 7) ;;
  let b := Z.lor b t in
  let '(v0, v1, v2, v3) := v in
  let v3 := Z.lxor v3 b in
  let '(v0, v1, v2, v3) := rounds 2 (v0, v1, v2, v3) in
  let v0 := Z.lxor v0 b in
  let v2 := Z.lxor v2 0xff in
  let '(v0, v1, v2, v3) := rounds 4 (v0, v1, v2, v3) in
  Done (Z.lxor (Z.lxor (Z.lxor v0 v1) v2) v3).

(** The block loop runs [end / 8] times, so a fuel of [len(in)] is never
    exhausted (lemma [sip_blocks_done]). *)
Definition siphash24 (inp : list Z) (k0 k1 : Z) : exec Z :=
  siphash24_fuel (List.length inp) inp k0 k1.

(** ** Test data of [TestSipHashSwitchAndVectorsSubset] *)

Definition test_k0 : Z := 0x0706050403020100.
Definition test_k1 : Z := 0x0f0e0d0c0b0a0908.

(** [msg[:L]] where [msg[i] = byte(i)]. *)
Definition test_msg (L : nat) : list Z := map Z.of_nat (seq 0 L).

(** [vbytes]: the first thirteen rows are the table of the test; the
    fourteenth is the next row of the published SipHash-2-4 table of 64-bit
    outputs (message length 13). *)
Definition vbytes : list (list Z) :=
  [ [0x31; 0x0e; 0x0e; 0xdd; 0x47; 0xdb; 0x6f; 0x72];
    [0xfd; 0x67; 0xdc; 0x93; 0xc5; 0x39; 0xf8; 0x74];
    [0x5a; 0x4f; 0xa9; 0xd9; 0x09; 0x80; 0x6c; 0x0d];
    [0x2d; 0x7e; 0xfb; 0xd7; 0x96; 0x66; 0x67; 0x85];
    [0xb7; 0x87; 0x71; 0x27; 0xe0; 0x94; 0x27; 0xcf];
    [0x8d; 0xa6; 0x99; 0xcd; 0x64; 0x55; 0x76; 0x18];
    [0xce; 0xe3; 0xfe; 0x58; 0x6e; 0x46; 0xc9; 0xcb];
    [0x37; 0xd1; 0x01; 0x8b; 0xf5; 0x00; 0x02; 0xab];
    [0x62; 0x24; 0x93; 0x9a; 0x79; 0xf5; 0xf5; 0x93];
    [0xb0; 0xe4; 0xa9; 0x0b; 0xdf; 0x82; 0x00; 0x9e];
    [0xf3; 0xb9; 0xdd; 0x94; 0xc5; 0xbb; 0x5d; 0x7a];
    [0xa7; 0xad; 0x6b; 0x22; 0x46; 0x2f; 0xb3; 0xf4];
    [0xfb; 0xe5; 0x0e; 0x86; 0xbc; 0x8f; 0x1e; 0x75];
    [0x90; 0x3d; 0x84; 0xc0; 0x27; 0x56; 0xea; 0x14] ].

(** [leU64], i.e. [binary.LittleEndian.Uint64]. *)
Definition leU64 (b : list Z) : exec Z := rd64le b.

(** ** Version and variant fields *)

Definition Version (u : UUID) : Z :=
  Z.land (Z.shiftr (at_ u 6) 4) 0x0F.

Definition SetVersion (u : UUID) (ver : Z) : UUID :=
  upd 6 (byte (Z.lor (Z.land (at_ u 6) 0x0F)
                     (byte (Z.shiftl (Z.land ver 0x0F) 4)))) u.

Definition SetVariantRFC4122 (u : UUID) : UUID :=
  upd 8 (byte (Z.lor (Z.land (at_ u 8) 0x3F) 0x80)) u.

Definition setVersion (u : UUID) (ver : Z) : UUID := SetVersion u ver.

Definition setVariantRFC4122 (u : UUID) : UUID := SetVariantRFC4122 u.

(** The variant field: the top two bits of byte 8. *)
Definition variant_bits (u : UUID) : Z := Z.shiftr (at_ u 8) 6.

(** ** The facade transform *)

(** [msg] is the caller's [[10]byte]; the function returns it filled in. *)
Definition buildSipInputFromV7 (u : UUID) (msg : list Z) : list Z :=
  let msg := upd 0 (Z.land (at_ u 6) 0x0F) msg in
  let msg := upd 1 (at_ u 7) msg in
  let msg := upd 2 (Z.land (at_ u 8) 0x3F) msg in
  let msg := upd 3 (at_ u 9) msg in
  let msg := upd 4 (at_ u 10) msg in
  let msg := upd 5 (at_ u 11) msg in
  let msg := upd 6 (at_ u 12) msg in
  let msg := upd 7 (at_ u 13) msg in
  let msg := upd 8 (at_ u 14) msg in
  let msg := upd 9 (at_ u 15) msg in
  msg.

(** [a[0:6]] of an array and the write-back through that slice: the slice
    shares the array's first six cells. *)
Definition slice06 (a : list Z) : list Z := firstn 6 a.
Definition put06 (a s : list Z) : list Z := s ++ skipn 6 a.

Definition Encode (v7 : UUID) (key : Key) : exec UUID :=
  let sipmsg := repeat 0 10 in
  let sipmsg := buildSipInputFromV7 v7 sipmsg in
  h <- siphash24 sipmsg (K0 key) (K1 key) ;;
  let mask48 := Z.land h 0x0000FFFFFFFFFFFF in
  ts48 <- rd48be (slice06 v7) ;;
  let encTS := Z.lxor ts48 mask48 in
  let out := v7 in
  s <- wr48be (slice06 out) encTS ;;
  let out := put06 out s in
  let out := setVersion out 4 in
  let out := setVariantRFC4122 out in
  Done out.

Definition Decode (v4facade : UUID) (key : Key) : exec UUID :=
  let sipmsg := repeat 0 10 in
  let sipmsg := buildSipInputFromV7 v4facade sipmsg in
  h <- siphash24 sipmsg (K0 key) (K1 key) ;;
  let mask48 := Z.land h 0x0000FFFFFFFFFFFF in
  encTS <- rd48be (slice06 v4facade) ;;
  let ts48 := Z.lxor encTS mask48 in
  let out := v4facade in
  s <- wr48be (slice06 out) ts48 ;;
  let out := put06 out s in
  let out := setVersion out 7 in
  let out := setVariantRFC4122 out in
  Done out.

(** ** Text form *)

(** Character codes: '0' = 48, '9' = 57, 'a' = 97, 'f' = 102, 'A' = 65,
    'F' = 70, '-' = 45.  The subtractions are [byte] arithmetic. *)
Definition hexval (c : Z) : Z :=
  if (48 <=? c) && (c <=? 57) then byte (c - 48)
  else if (97 <=? c) && (c <=? 102) then byte (byte (c - 97) + 10)
  else if (65 <=? c) && (c <=? 70) then byte (byte (c - 65) + 10)
  else -1.

(** The position of the first hex digit of byte [i]. *)
Definition Parse_pos (i : Z) : Z :=
  if i <? 4 then i * 2
  else if i <? 6 then i * 2 + 1
  else if i <? 8 then i * 2 + 2
  else if i <? 10 then i * 2 + 3
  else i * 2 + 4.

(** [for i := range 16 { ... }] with [n] iterations left, at index [i]. *)
Fixpoint Parse_loop (n : nat) (i : Z) (s : list Z) (out : UUID)
  : exec (UUID * option error) :=
  match n with
  | O => Done (out, None)
  | S n' =>
      let pos := Parse_pos i in
      ch <- index s pos ;;
      let h := hexval ch in
      cl <- index s (pos + 1) ;;
      let l := hexval cl in
      if (h <? 0) || (l <? 0) then Done (UUID_zero, Some ErrInvalidHex)
      else
        out <- store out i (byte (Z.lor (Z.shiftl h 4) l)) ;;
        Parse_loop n' (i + 1) s out
  end.

(** [a != '-' || b != '-' || ...]: each operand is read only when the ones
    before it were hyphens. *)
Definition not_dash_or (s : list Z) (p : Z) (rest : exec bool) : exec bool :=
  c <- index s p ;;
  if negb (c =? 45) then Done true else rest.

Definition Parse (s : list Z) : exec (UUID * option error) :=
  if negb (len s =? 36) then Done (UUID_zero, Some ErrInvalidLength)
  else
    bad <- not_dash_or s 8 (not_dash_or s 13 (not_dash_or s 18
             (not_dash_or s 23 (Done false)))) ;;
    if bad then Done (UUID_zero, Some ErrInvalidFormat)
    else
      let out := UUID_zero in
      Parse_loop 16 0 s out.

Definition hexd : list Z := Eval cbv in bytes_of "0123456789abcdef".
Definition dpos : list Z := [4; 6; 8; 10].

(** [for i := range 16 { ... }] of [String], with [n] iterations left. *)
Fixpoint String_loop (n : nat) (i : Z) (u : UUID) (buf : list Z) (j : Z)
  : exec (list Z) :=
  match n with
  | O => Done buf
  | S n' =>
      bj <- (if (i =? at_ dpos 0) || (i =? at_ dpos 1) ||
                (i =? at_ dpos 2) || (i =? at_ dpos 3)
             then buf <- store buf j 45 ;; Done (buf, j + 1)
             else Done (buf, j)) ;;
      let '(buf, j) := bj in
      ui <- index u i ;;
      c <- index hexd (Z.land (Z.shiftr ui 4) 0xF) ;;
      buf <- store buf j c ;;
      let j := j + 1 in
      ui <- index u i ;;
      c <- index hexd (Z.land ui 0xF) ;;
      buf <- store buf j c ;;
      let j := j + 1 in
      String_loop n' (i + 1) u buf j
  end.

(** [func (u *UUID) String() string] *)
Definition UUID_String (u : UUID) : exec (list Z) :=
  let buf := repeat 0 36 in
  String_loop 16 0 u buf 0.

(** ** Byte-slice and text setters: the receiver is passed and returned *)

(** [copy(dst, src)] copies [min(len(dst), len(src))] elements. *)
Definition copy (dst src : list Z) : list Z :=
  let n := Nat.min (List.length dst) (List.length src) in
  firstn n src ++ skipn n dst.

Definition SetBytes (u : UUID) (b : list Z) : UUID * option error :=
  if negb (len b =? 16) then (u, Some ErrInvalidByteSlice)
  else (copy u b, None).

Definition UnmarshalText (u : UUID) (text : list Z)
  : exec (UUID * option error) :=
  r <- Parse text ;;
  let '(parsed, err) := r in
  match err with
  | Some e => Done (u, Some e)
  | None => Done (parsed, None)
  end.

(** ** The scenario of [Example] *)

Definition example_key : Key :=
  mkKey 0x0123456789abcdef 0xfedcba9876543210.

Definition example_v7 : UUID :=
  [0x01; 0x8f; 0x2d; 0x9f; 0x9a; 0x2a; 0x7d; 0xef;
   0x8c; 0x3f; 0x7b; 0x1a; 0x2c; 0x4d; 0x5e; 0x6f].

Definition example_facade : UUID :=
  [0x24; 0x63; 0xc7; 0x80; 0x7f; 0xca; 0x4d; 0xef;
   0x8c; 0x3f; 0x7b; 0x1a; 0x2c; 0x4d; 0x5e; 0x6f].

(** ** Fields of an identifier, as the specification names them *)

(** Bytes 0-5: the 48-bit timestamp field. *)
Definition timestamp (u : UUID) : list Z := firstn 6 u.

(** rand_a: the low nibble of byte 6 and byte 7. *)
Definition rand_a (u : UUID) : Z * Z := (Z.land (at_ u 6) 0x0F, at_ u 7).

(** rand_b: the low six bits of byte 8 and bytes 9-15. *)
Definition rand_b (u : UUID) : Z * list Z := (Z.land (at_ u 8) 0x3F, skipn 9 u).

(** The PRF message of an identifier, in a fresh [[10]byte]. *)
Definition sipmsg (u : UUID) : list Z := buildSipInputFromV7 u (repeat 0 10).

(** The 48-bit big-endian value of six bytes, as [rd48be] assembles it. *)
Definition be48 (b0 b1 b2 b3 b4 b5 : Z) : Z :=
  Z.lor (Z.lor (Z.lor (Z.lor (Z.lor
        (shl64 b0 40) (shl64 b1 32)) (shl64 b2 24)) (shl64 b3 16))
        (shl64 b4 8)) (shl64 b5 0).

(** What [Encode] ([ver = 4]) and [Decode] ([ver = 7]) return once the PRF
    value [h] is known; lemmas [Encode_masked] and [Decode_masked] relate it
    to the two functions. *)
Definition masked (ver : Z) (u : UUID) (h : Z) : UUID :=
  match u with
  | [b0; b1; b2; b3; b4; b5; b6; b7; b8; b9; b10; b11; b12; b13; b14; b15] =>
      let t := Z.lxor (be48 b0 b1 b2 b3 b4 b5) (Z.land h 0x0000FFFFFFFFFFFF) in
      [ byte (Z.shiftr t 40); byte (Z.shiftr t 32); byte (Z.shiftr t 24);
        byte (Z.shiftr t 16); byte (Z.shiftr t 8); byte (Z.shiftr t 0);
        byte (Z.lor (Z.land b6 0x0F) (byte (Z.shiftl (Z.land ver 0x0F) 4)));
        b7;
        byte (Z.lor (Z.land b8 0x3F) 0x80);
        b9; b10; b11; b12; b13; b14; b15 ]
  | _ => u
  end.

(** ** The text form, as the specification describes it *)

(** A hexadecimal digit, of either case. *)
Definition is_hex (c : Z) : bool :=
  ((48 <=? c) && (c <=? 57)) || ((97 <=? c) && (c <=? 102)) ||
  ((65 <=? c) && (c <=? 70)).

(** A lowercase hexadecimal digit. *)
Definition is_lower_hex (c : Z) : bool :=
  ((48 <=? c) && (c <=? 57)) || ((97 <=? c) && (c <=? 102)).

(** The hyphens of the 8-4-4-4-12 grouping, read as [Parse] reads them. *)
Definition hyphens_ok (s : list Z) : bool :=
  (nth 8 s 0 =? 45) && (nth 13 s 0 =? 45) &&
  (nth 18 s 0 =? 45) && (nth 23 s 0 =? 45).

(** The 32 character offsets that carry hex digits. *)
Definition data_positions : list nat :=
  [0; 1; 2; 3; 4; 5; 6; 7; 9; 10; 11; 12; 14; 15; 16; 17;
   19; 20; 21; 22; 24; 25; 26; 27; 28; 29; 30; 31; 32; 33; 34; 35]%nat.

Definition data_ok (s : list Z) : bool :=
  forallb (fun p => is_hex (nth p s 0)) data_positions.

Definition data_lower (s : list Z) : bool :=
  forallb (fun p => is_lower_hex (nth p s 0)) data_positions.

(** A string [Parse] is meant to accept. *)
Definition canonical (s : list Z) : bool :=
  (len s =? 36) && hyphens_ok s && data_ok s.

(** [i; i+1; ...], [n] values. *)
Fixpoint zrange (i : Z) (n : nat) : list Z :=
  match n with
  | O => []
  | S n' => i :: zrange (i + 1) n'
  end.

(** The two characters that spell byte [i], and the byte they spell. *)
Definition hi_char (s : list Z) (i : Z) : Z := nth (Z.to_nat (Parse_pos i)) s 0.
Definition lo_char (s : list Z) (i : Z) : Z :=
  nth (Z.to_nat (Parse_pos i + 1)) s 0.

Definition pair_ok (s : list Z) (i : Z) : bool :=
  is_hex (hi_char s i) && is_hex (lo_char s i).

Definition hex_byte (s : list Z) (i : Z) : Z :=
  byte (Z.lor (Z.shiftl (hexval (hi_char s i)) 4) (hexval (lo_char s i))).

(** The bytes the loop of [Parse] writes for the indices [ks]. *)
Definition fill (s : list Z) (ks : list Z) (out : UUID) : UUID :=
  fold_left (fun o k => upd (Z.to_nat k) (hex_byte s k) o) ks out.

(** The sixteen bytes spelled by a 36-character string. *)
Definition parsed_bytes (s : list Z) : UUID := map (hex_byte s) (zrange 0 16).

(** The digit [String] writes for a nibble. *)
Definition hexchar (n : Z) : Z := if n <? 10 then 48 + n else 87 + n.

(** The offsets of [dpos]: the bytes before which [String] writes a hyphen. *)
Definition is_dpos (i : Z) : bool :=
  (i =? 4) || (i =? 6) || (i =? 8) || (i =? 10).

(** The text of the bytes [bs], the first of which is byte [i]. *)
Fixpoint format_from (i : Z) (bs : list Z) : list Z :=
  match bs with
  | [] => []
  | b :: t =>
      (if is_dpos i then [45] else []) ++
      hexchar (Z.land (Z.shiftr b 4) 0xF) :: hexchar (Z.land b 0xF) ::
      format_from (i + 1) t
  end.

(** The canonical text of an identifier. *)
Definition formatted (u : UUID) : list Z := format_from 0 u.

(** All four words of a SipHash state are 64-bit values. *)
Definition st_u64 (v : sipstate) : Prop :=
  let '(v0, v1, v2, v3) := v in
  is_u64 v0 /\ is_u64 v1 /\ is_u64 v2 /\ is_u64 v3.

(** * Proofs *)

(** ** The execution monad and bounds-checked accesses *)

Lemma len_nonneg {A : Type} (l : list A) : 0 <= len l.
Proof. unfold len. lia. Qed.

Lemma index_done (l : list Z) (i : Z) :
  0 <= i < len l ->
  exists x, index l i = Done x /\ nth_error l (Z.to_nat i) = Some x.
Proof.
  intros Hi. unfold index.
  replace ((i <? 0) || (len l <=? i)) with false
    by (symmetry; apply orb_false_iff; split; [apply Z.ltb_ge | apply Z.leb_gt]; lia).
  destruct (nth_error l (Z.to_nat i)) as [x|] eqn:E.
  - exists x. split; reflexivity.
  - apply nth_error_None in E. unfold len in Hi. lia.
Qed.

Lemma index_inv (l : list Z) (i x : Z) :
  index l i = Done x -> 0 <= i < len l /\ nth_error l (Z.to_nat i) = Some x.
Proof.
  unfold index. intros H.
  destruct ((i <? 0) || (len l <=? i)) eqn:E; [discriminate|].
  apply orb_false_iff in E. destruct E as [E1 E2].
  apply Z.ltb_ge in E1. apply Z.leb_gt in E2.
  destruct (nth_error l (Z.to_nat i)) eqn:E3; [|discriminate].
  inversion H; subst. split; [lia | reflexivity].
Qed.

Lemma slice_from_done (l : list Z) (i : Z) :
  0 <= i <= len l -> slice_from l i = Done (skipn (Z.to_nat i) l).
Proof.
  intros Hi. unfold slice_from.
  replace ((i <? 0) || (len l <? i)) with false; [reflexivity|].
  symmetry; apply orb_false_iff; split; [apply Z.ltb_ge | apply Z.ltb_ge]; lia.
Qed.

Lemma len_skipn (l : list Z) (n : nat) :
  len (skipn n l) = len l - Z.of_nat (Nat.min n (List.length l)).
Proof. unfold len. rewrite length_skipn. lia. Qed.

Lemma Forall_nth_error (P : Z -> Prop) (l : list Z) (n : nat) (x : Z) :
  Forall P l -> nth_error l n = Some x -> P x.
Proof.
  intros HF HN. rewrite Forall_forall in HF. apply HF.
  eapply nth_error_In; eassumption.
Qed.

Lemma Forall_skipn (P : Z -> Prop) (n : nat) (l : list Z) :
  Forall P l -> Forall P (skipn n l).
Proof.
  revert l. induction n as [|n IH]; intros l H; simpl; [assumption|].
  destruct l; [constructor|]. inversion H; subst. apply IH. assumption.
Qed.

(** ** Ranges of 64-bit words *)

Lemma is_u64_of_bits (x : Z) :
  (forall i, 64 <= i -> Z.testbit x i = false) -> is_u64 x.
Proof.
  intros H.
  assert (E : x mod 2 ^ 64 = x).
  { apply Z.bits_inj'. intros i Hi.
    rewrite Z.testbit_mod_pow2 by lia.
    destruct (Z.ltb_spec i 64); simpl; [reflexivity|].
    symmetry. apply H. assumption. }
  unfold is_u64. rewrite <- E. apply Z.mod_pos_bound. lia.
Qed.

Lemma bits_of_is_u64 (x : Z) :
  is_u64 x -> forall i, 64 <= i -> Z.testbit x i = false.
Proof.
  intros H i Hi. rewrite <- (Z.mod_small x (2 ^ 64)) by exact H.
  apply Z.mod_pow2_bits_high. lia.
Qed.

Lemma is_u64_mod (x : Z) : is_u64 (x mod 2 ^ 64).
Proof. unfold is_u64. apply Z.mod_pos_bound. lia. Qed.

Lemma is_u64_add64 (a b : Z) : is_u64 (add64 a b).
Proof. apply is_u64_mod. Qed.

Lemma is_u64_shl64 (a n : Z) : is_u64 (shl64 a n).
Proof. apply is_u64_mod. Qed.

Lemma is_u64_lor (a b : Z) : is_u64 a -> is_u64 b -> is_u64 (Z.lor a b).
Proof.
  intros Ha Hb. apply is_u64_of_bits. intros i Hi.
  rewrite Z.lor_spec, (bits_of_is_u64 a Ha i Hi), (bits_of_is_u64 b Hb i Hi).
  reflexivity.
Qed.

Lemma is_u64_lxor (a b : Z) : is_u64 a -> is_u64 b -> is_u64 (Z.lxor a b).
Proof.
  intros Ha Hb. apply is_u64_of_bits. intros i Hi.
  rewrite Z.lxor_spec, (bits_of_is_u64 a Ha i Hi), (bits_of_is_u64 b Hb i Hi).
  reflexivity.
Qed.

Lemma is_u64_shiftr (a n : Z) : is_u64 a -> 0 <= n -> is_u64 (Z.shiftr a n).
Proof.
  intros Ha Hn. apply is_u64_of_bits. intros i Hi.
  rewrite Z.shiftr_spec by lia. apply (bits_of_is_u64 a Ha). lia.
Qed.

Lemma is_u64_rotl64 (x b : Z) : is_u64 x -> 0 <= b <= 64 -> is_u64 (rotl64 x b).
Proof.
  intros Hx Hb. unfold rotl64. apply is_u64_lor.
  - apply is_u64_shl64.
  - apply is_u64_shiftr; [assumption | lia].
Qed.

Lemma is_u64_byte (b : Z) : is_byte b -> is_u64 b.
Proof. unfold is_byte, is_u64. intros H. lia. Qed.

Ltac u64 := repeat first
  [ assumption
  | apply is_u64_add64 | apply is_u64_shl64 | apply is_u64_mod
  | apply is_u64_rotl64; [| lia]
  | apply is_u64_lor | apply is_u64_lxor
  | (unfold is_u64; lia) ].

Ltac split4 := split; [|split; [|split]].

Lemma sipround_u64 (v : sipstate) : st_u64 v -> st_u64 (sipround v).
Proof.
  destruct v as [[[v0 v1] v2] v3]. intros (H0 & H1 & H2 & H3).
  unfold sipround, st_u64. split4; u64.
Qed.

Lemma rounds_u64 (n : nat) (v : sipstate) : st_u64 v -> st_u64 (rounds n v).
Proof.
  intros H. induction n as [|n IH]; [assumption|].
  unfold rounds in *. simpl. apply sipround_u64. assumption.
Qed.

(** ** SipHash-2-4 never panics and never runs out of fuel *)

Lemma land_7 (n : Z) : Z.land n 7 = n mod 8.
Proof. change 7 with (Z.ones 3). rewrite Z.land_ones by lia. reflexivity. Qed.

Lemma ldiff_7 (n : Z) : Z.ldiff n 7 = 8 * (n / 8).
Proof.
  change 7 with (Z.ones 3). rewrite Z.ldiff_ones_r by lia.
  rewrite Z.shiftl_mul_pow2, Z.shiftr_div_pow2 by lia.
  change (2 ^ 3) with 8. lia.
Qed.

Lemma rd64le_done (p : list Z) :
  8 <= len p ->
  exists m, rd64le p = Done m /\ (Forall is_byte p -> is_u64 m).
Proof.
  intros Hp. unfold rd64le.
  destruct (index_done p 0) as (x0 & E0 & N0); [lia|].
  destruct (index_done p 1) as (x1 & E1 & N1); [lia|].
  destruct (index_done p 2) as (x2 & E2 & N2); [lia|].
  destruct (index_done p 3) as (x3 & E3 & N3); [lia|].
  destruct (index_done p 4) as (x4 & E4 & N4); [lia|].
  destruct (index_done p 5) as (x5 & E5 & N5); [lia|].
  destruct (index_done p 6) as (x6 & E6 & N6); [lia|].
  destruct (index_done p 7) as (x7 & E7 & N7); [lia|].
  rewrite E0, E1, E2, E3, E4, E5, E6, E7. cbn [bind].
  eexists. split; [reflexivity|].
  intros HF. pose proof (Forall_nth_error _ _ _ _ HF N0) as B0.
  apply is_u64_byte in B0. u64.
Qed.

Lemma sip_blocks_done (fuel : nat) :
  forall (inp : list Z) (endp i : Z) (v : sipstate),
    0 <= i -> i mod 8 = 0 -> endp mod 8 = 0 -> endp <= len inp ->
    endp - i <= 8 * Z.of_nat fuel ->
    exists v', sip_blocks fuel inp endp i v = Done v' /\
               (Forall is_byte inp -> st_u64 v -> st_u64 v').
Proof.
  induction fuel as [|fuel IH]; intros inp endp i v Hi Hi8 He8 Hle Hfuel.
  - cbn [sip_blocks]. destruct (Z.ltb_spec i endp); [lia|].
    exists v. split; [reflexivity | auto].
  - cbn [sip_blocks]. destruct (Z.ltb_spec i endp) as [Hlt|Hge].
    + assert (Hstep : i + 8 <= endp).
      { apply Z.mod_divide in Hi8, He8; try lia.
        destruct Hi8 as [a Ha], He8 as [b Hb]. lia. }
      rewrite slice_from_done by lia. cbn [bind].
      destruct (rd64le_done (skipn (Z.to_nat i) inp)) as (m & Em & Rm).
      { rewrite len_skipn. unfold len in *. lia. }
      rewrite Em. cbn [bind].
      destruct v as [[[v0 v1] v2] v3].
      destruct (rounds 2 (v0, v1, v2, Z.lxor v3 m)) as [[[w0 w1] w2] w3] eqn:ER.
      destruct (IH inp endp (i + 8) (Z.lxor w0 m, w1, w2, w3))
        as (v' & Ev' & Rv'); try lia.
      { rewrite <- Z.add_mod_idemp_l by lia. rewrite Hi8. reflexivity. }
      exists v'. split; [exact Ev'|].
      intros HF (H0 & H1 & H2 & H3).
      assert (Um : is_u64 m) by (apply Rm, Forall_skipn, HF).
      assert (Uw : st_u64 (w0, w1, w2, w3)).
      { rewrite <- ER. apply rounds_u64. split4; u64. }
      destruct Uw as (W0 & W1 & W2 & W3).
      apply Rv'; [assumption|]. split4; u64.
    + exists v. split; [reflexivity | auto].
Qed.

Lemma sip_tail_case_done (inp : list Z) (endp r j t : Z) :
  0 <= endp -> 1 <= j -> endp + r <= len inp ->
  exists t', sip_tail_case inp endp r j t = Done t' /\
             (is_u64 t -> is_u64 t').
Proof.
  intros He Hj Hr. unfold sip_tail_case.
  destruct (Z.leb_spec j r).
  - destruct (index_done inp (endp + (j - 1))) as (c & Ec & _); [lia|].
    rewrite Ec. cbn [bind]. eexists. split; [reflexivity|]. intros. u64.
  - exists t. split; [reflexivity | auto].
Qed.

Lemma sip_tail_done (inp : list Z) (endp r : Z) :
  0 <= endp -> endp + r <= len inp ->
  exists t, sip_tail inp endp r = Done t /\ is_u64 t.
Proof.
  intros He Hr. unfold sip_tail.
  destruct (sip_tail_case_done inp endp r 7 0) as (t7 & E7 & U7); try lia.
  destruct (sip_tail_case_done inp endp r 6 t7) as (t6 & E6 & U6); try lia.
  destruct (sip_tail_case_done inp endp r 5 t6) as (t5 & E5 & U5); try lia.
  destruct (sip_tail_case_done inp endp r 4 t5) as (t4 & E4 & U4); try lia.
  destruct (sip_tail_case_done inp endp r 3 t4) as (t3 & E3 & U3); try lia.
  destruct (sip_tail_case_done inp endp r 2 t3) as (t2 & E2 & U2); try lia.
  destruct (sip_tail_case_done inp endp r 1 t2) as (t1 & E1 & U1); try lia.
  rewrite E7; cbn [bind]. rewrite E6; cbn [bind]. rewrite E5; cbn [bind].
  rewrite E4; cbn [bind]. rewrite E3; cbn [bind]. rewrite E2; cbn [bind].
  rewrite E1; cbn [bind].
  exists t1. split; [reflexivity|].
  apply U1, U2, U3, U4, U5, U6, U7. unfold is_u64. lia.
Qed.

(** With fuel [len(in)] or more the hash is computed; its value is a 64-bit
    word when the key words and the message bytes are in range. *)
Lemma siphash24_fuel_done (fuel : nat) (inp : list Z) (k0 k1 : Z) :
  (List.length inp <= fuel)%nat ->
  exists h, siphash24_fuel fuel inp k0 k1 = Done h /\
            (is_u64 k0 -> is_u64 k1 -> Forall is_byte inp -> is_u64 h).
Proof.
  intros Hfuel. unfold siphash24_fuel.
  pose proof (len_nonneg inp) as Hlen.
  rewrite ldiff_7, land_7.
  set (v0 := Z.lxor 0x736f6d6570736575 k0).
  set (v1 := Z.lxor 0x646f72616e646f6d k1).
  set (v2 := Z.lxor 0x6c7967656e657261 k0).
  set (v3 := Z.lxor 0x7465646279746573 k1).
  destruct (sip_blocks_done fuel inp (8 * (len inp / 8)) 0 (v0, v1, v2, v3))
    as (v & Ev & Rv).
  - lia.
  - reflexivity.
  - rewrite Z.mul_comm. apply Z.mod_mul. lia.
  - pose proof (Z.mul_div_le (len inp) 8). lia.
  - pose proof (Z.mul_div_le (len inp) 8). unfold len in *. lia.
  - rewrite Ev. cbn [bind].
    destruct (sip_tail_done inp (8 * (len inp / 8)) (len inp mod 8))
      as (t & Et & Ut).
    + pose proof (Z.div_pos (len inp) 8). lia.
    + pose proof (Z.div_mod (len inp) 8). lia.
    + rewrite Et. cbn [bind].
      destruct v as [[[a0 a1] a2] a3].
      set (b := Z.lor (shl64 (len inp) 56) t).
      destruct (rounds 2 (a0, a1, a2, Z.lxor a3 b)) as [[[b0 b1] b2] b3] eqn:E2.
      destruct (rounds 4 (Z.lxor b0 b, b1, Z.lxor b2 255, b3))
        as [[[c0 c1] c2] c3] eqn:E4.
      eexists. split; [reflexivity|].
      intros U0 U1 HF.
      assert (Ub : is_u64 b) by (subst b; u64).
      assert (Ua : st_u64 (a0, a1, a2, a3)).
      { apply Rv; [assumption|]. subst v0 v1 v2 v3. split4; u64. }
      destruct Ua as (A0 & A1 & A2 & A3).
      assert (UB : st_u64 (b0, b1, b2, b3)).
      { rewrite <- E2. apply rounds_u64. split4; u64. }
      destruct UB as (B0 & B1 & B2 & B3).
      assert (UC : st_u64 (c0, c1, c2, c3)).
      { rewrite <- E4. apply rounds_u64. split4; u64. }
      destruct UC as (C0 & C1 & C2 & C3).
      u64.
Qed.

Lemma siphash24_done (inp : list Z) (k0 k1 : Z) :
  exists h, siphash24 inp k0 k1 = Done h /\
            (is_u64 k0 -> is_u64 k1 -> Forall is_byte inp -> is_u64 h).
Proof. apply siphash24_fuel_done. lia. Qed.

(** ** Bit-level facts about the rewritten bytes *)

Ltac bits :=
  Z.bitblast;
  repeat match goal with
         | |- context [?a =? ?b] => destruct (Z.eqb_spec a b)
         end;
  try lia;
  repeat match goal with
         | |- context [Z.testbit ?x ?i] => rewrite (Z.testbit_neg_r x i) by lia
         end;
  try btauto.

Lemma is_byte_byte (x : Z) : is_byte (byte x).
Proof. unfold is_byte, byte. apply Z.mod_pos_bound. lia. Qed.

Lemma version_nibble_keeps_low (b ver : Z) :
  Z.land (byte (Z.lor (Z.land b 0x0F) (byte (Z.shiftl (Z.land ver 0x0F) 4))))
         0x0F
  = Z.land b 0x0F.
Proof.
  unfold byte. change 256 with (2 ^ 8). change 0x0F with (Z.ones 4). bits.
Qed.

Lemma version_nibble_set (b ver : Z) :
  Z.land (Z.shiftr (byte (Z.lor (Z.land b 0x0F)
                                (byte (Z.shiftl (Z.land ver 0x0F) 4)))) 4) 0x0F
  = Z.land ver 0x0F.
Proof.
  unfold byte. change 256 with (2 ^ 8). change 0x0F with (Z.ones 4). bits.
Qed.

Lemma variant_keeps_low (b : Z) :
  Z.land (byte (Z.lor (Z.land b 0x3F) 0x80)) 0x3F = Z.land b 0x3F.
Proof.
  unfold byte. change 256 with (2 ^ 8). change 0x3F with (Z.ones 6).
  change 0x80 with (2 ^ 7). bits.
Qed.

Lemma variant_set (b : Z) :
  Z.shiftr (byte (Z.lor (Z.land b 0x3F) 0x80)) 6 = 2.
Proof.
  unfold byte. change 256 with (2 ^ 8). change 0x3F with (Z.ones 6).
  change 0x80 with (2 ^ 7). change 2 with (2 ^ 1). bits.
Qed.

(** Reading back six bytes written by [wr48be] gives the low 48 bits. *)
Lemma be48_of_written (v : Z) :
  be48 (byte (Z.shiftr v 40)) (byte (Z.shiftr v 32)) (byte (Z.shiftr v 24))
       (byte (Z.shiftr v 16)) (byte (Z.shiftr v 8)) (byte (Z.shiftr v 0))
  = v mod 2 ^ 48.
Proof.
  unfold be48, shl64, byte. change 256 with (2 ^ 8). bits.
Qed.

(** XOR-ing the same mask twice restores each byte of the 48-bit field. *)
Lemma unmask_byte (ts m s : Z) :
  0 <= s <= 40 ->
  byte (Z.shiftr (Z.lxor ((Z.lxor ts m) mod 2 ^ 48) m) s)
  = byte (Z.shiftr ts s).
Proof.
  intros Hs. unfold byte. change 256 with (2 ^ 8). bits.
Qed.

Section Be48Bytes.
Variables b0 b1 b2 b3 b4 b5 : Z.
Hypothesis H0 : is_byte b0.
Hypothesis H1 : is_byte b1.
Hypothesis H2 : is_byte b2.
Hypothesis H3 : is_byte b3.
Hypothesis H4 : is_byte b4.
Hypothesis H5 : is_byte b5.

Ltac be48_byte :=
  rewrite <- (Z.mod_small b0 (2 ^ 8)), <- (Z.mod_small b1 (2 ^ 8)),
          <- (Z.mod_small b2 (2 ^ 8)), <- (Z.mod_small b3 (2 ^ 8)),
          <- (Z.mod_small b4 (2 ^ 8)), <- (Z.mod_small b5 (2 ^ 8))
    by assumption;
  unfold be48, shl64, byte; change 256 with (2 ^ 8); bits.

Lemma be48_byte0 : byte (Z.shiftr (be48 b0 b1 b2 b3 b4 b5) 40) = b0.
Proof. be48_byte. Qed.

Lemma be48_byte1 : byte (Z.shiftr (be48 b0 b1 b2 b3 b4 b5) 32) = b1.
Proof. be48_byte. Qed.

Lemma be48_byte2 : byte (Z.shiftr (be48 b0 b1 b2 b3 b4 b5) 24) = b2.
Proof. be48_byte. Qed.

Lemma be48_byte3 : byte (Z.shiftr (be48 b0 b1 b2 b3 b4 b5) 16) = b3.
Proof. be48_byte. Qed.

Lemma be48_byte4 : byte (Z.shiftr (be48 b0 b1 b2 b3 b4 b5) 8) = b4.
Proof. be48_byte. Qed.

Lemma be48_byte5 : byte (Z.shiftr (be48 b0 b1 b2 b3 b4 b5) 0) = b5.
Proof. be48_byte. Qed.
End Be48Bytes.


(** ** Encode and Decode in closed form *)

Ltac explode16 u L :=
  destruct u as [|?b0 u]; [discriminate L|];
  destruct u as [|?b1 u]; [discriminate L|];
  destruct u as [|?b2 u]; [discriminate L|];
  destruct u as [|?b3 u]; [discriminate L|];
  destruct u as [|?b4 u]; [discriminate L|];
  destruct u as [|?b5 u]; [discriminate L|];
  destruct u as [|?b6 u]; [discriminate L|];
  destruct u as [|?b7 u]; [discriminate L|];
  destruct u as [|?b8 u]; [discriminate L|];
  destruct u as [|?b9 u]; [discriminate L|];
  destruct u as [|?b10 u]; [discriminate L|];
  destruct u as [|?b11 u]; [discriminate L|];
  destruct u as [|?b12 u]; [discriminate L|];
  destruct u as [|?b13 u]; [discriminate L|];
  destruct u as [|?b14 u]; [discriminate L|];
  destruct u as [|?b15 u]; [discriminate L|];
  destruct u; [clear L|discriminate L].

Ltac forall_bytes H :=
  repeat (apply Forall_cons_iff in H; let Hb := fresh "Hb" in destruct H as [Hb H]).

Lemma Encode_masked (u : UUID) (k : Key) (h : Z) :
  List.length u = 16%nat ->
  siphash24 (sipmsg u) (K0 k) (K1 k) = Done h ->
  Encode u k = Done (masked 4 u h).
Proof.
  intros L H. explode16 u L. unfold sipmsg in H. unfold Encode. cbv zeta.
  rewrite H. reflexivity.
Qed.

Lemma Decode_masked (u : UUID) (k : Key) (h : Z) :
  List.length u = 16%nat ->
  siphash24 (sipmsg u) (K0 k) (K1 k) = Done h ->
  Decode u k = Done (masked 7 u h).
Proof.
  intros L H. explode16 u L. unfold sipmsg in H. unfold Decode. cbv zeta.
  rewrite H. reflexivity.
Qed.

Lemma masked_length (ver : Z) (u : UUID) (h : Z) :
  List.length u = 16%nat -> List.length (masked ver u h) = 16%nat.
Proof. intros L. explode16 u L. reflexivity. Qed.

Lemma masked_wf (ver : Z) (u : UUID) (h : Z) :
  wf_uuid u -> wf_uuid (masked ver u h).
Proof.
  intros [L F]. explode16 u L. forall_bytes F.
  split; [reflexivity|]. unfold masked.
  repeat (apply Forall_cons; [first [apply is_byte_byte | assumption]|]).
  constructor.
Qed.

(** The PRF message only reads bits that [masked] leaves alone. *)
Lemma sipmsg_masked (ver : Z) (u : UUID) (h : Z) :
  List.length u = 16%nat -> sipmsg (masked ver u h) = sipmsg u.
Proof.
  intros L. explode16 u L.
  change (sipmsg (masked ver [b0; b1; b2; b3; b4; b5; b6; b7; b8; b9; b10;
                              b11; b12; b13; b14; b15] h))
    with [Z.land (byte (Z.lor (Z.land b6 0x0F)
                              (byte (Z.shiftl (Z.land ver 0x0F) 4)))) 0x0F;
          b7;
          Z.land (byte (Z.lor (Z.land b8 0x3F) 0x80)) 0x3F;
          b9; b10; b11; b12; b13; b14; b15].
  rewrite version_nibble_keeps_low, variant_keeps_low. reflexivity.
Qed.

Lemma sipmsg_contents (u : UUID) :
  List.length u = 16%nat ->
  sipmsg u = [Z.land (at_ u 6) 0x0F; at_ u 7; Z.land (at_ u 8) 0x3F;
              at_ u 9; at_ u 10; at_ u 11; at_ u 12; at_ u 13; at_ u 14;
              at_ u 15].
Proof. intros L. explode16 u L. reflexivity. Qed.

Lemma buildSipInput_as_sipmsg (u : UUID) (msg : list Z) :
  List.length u = 16%nat -> List.length msg = 10%nat ->
  buildSipInputFromV7 u msg = sipmsg u.
Proof.
  intros L M. explode16 u L.
  do 10 (destruct msg as [|? msg]; [discriminate M|]).
  destruct msg; [|discriminate M]. reflexivity.
Qed.

Lemma Version_masked (ver : Z) (u : UUID) (h : Z) :
  List.length u = 16%nat -> Version (masked ver u h) = Z.land ver 0x0F.
Proof.
  intros L. explode16 u L.
  change (Version (masked ver [b0; b1; b2; b3; b4; b5; b6; b7; b8; b9; b10;
                               b11; b12; b13; b14; b15] h))
    with (Z.land (Z.shiftr (byte (Z.lor (Z.land b6 0x0F)
            (byte (Z.shiftl (Z.land ver 0x0F) 4)))) 4) 0x0F).
  apply version_nibble_set.
Qed.

Lemma variant_masked (ver : Z) (u : UUID) (h : Z) :
  List.length u = 16%nat -> variant_bits (masked ver u h) = 2.
Proof.
  intros L. explode16 u L.
  change (variant_bits (masked ver [b0; b1; b2; b3; b4; b5; b6; b7; b8; b9;
                                    b10; b11; b12; b13; b14; b15] h))
    with (Z.shiftr (byte (Z.lor (Z.land b8 0x3F) 0x80)) 6).
  apply variant_set.
Qed.

Lemma rand_a_masked (ver : Z) (u : UUID) (h : Z) :
  List.length u = 16%nat -> rand_a (masked ver u h) = rand_a u.
Proof.
  intros L. explode16 u L. unfold rand_a.
  change (at_ (masked ver [b0; b1; b2; b3; b4; b5; b6; b7; b8; b9; b10;
                           b11; b12; b13; b14; b15] h) 6)
    with (byte (Z.lor (Z.land b6 0x0F) (byte (Z.shiftl (Z.land ver 0x0F) 4)))).
  rewrite version_nibble_keeps_low. reflexivity.
Qed.

Lemma rand_b_masked (ver : Z) (u : UUID) (h : Z) :
  List.length u = 16%nat -> rand_b (masked ver u h) = rand_b u.
Proof.
  intros L. explode16 u L. unfold rand_b.
  change (at_ (masked ver [b0; b1; b2; b3; b4; b5; b6; b7; b8; b9; b10;
                           b11; b12; b13; b14; b15] h) 8)
    with (byte (Z.lor (Z.land b8 0x3F) 0x80)).
  rewrite variant_keeps_low. reflexivity.
Qed.

(** Masking twice with the same PRF value restores the timestamp bytes. *)
Lemma timestamp_masked_twice (v w : Z) (u : UUID) (h : Z) :
  wf_uuid u -> timestamp (masked v (masked w u h) h) = timestamp u.
Proof.
  intros [L F]. explode16 u L. forall_bytes F.
  unfold masked, timestamp, firstn.
  rewrite be48_of_written.
  rewrite !unmask_byte by lia.
  rewrite be48_byte0, be48_byte1, be48_byte2, be48_byte3, be48_byte4,
    be48_byte5 by assumption.
  reflexivity.
Qed.

Lemma buildSipInput_masked (ver : Z) (u : UUID) (h : Z) (msg : list Z) :
  List.length u = 16%nat ->
  buildSipInputFromV7 (masked ver u h) msg = buildSipInputFromV7 u msg.
Proof.
  intros L. explode16 u L. unfold buildSipInputFromV7.
  change (at_ (masked ver [b0; b1; b2; b3; b4; b5; b6; b7; b8; b9; b10;
                           b11; b12; b13; b14; b15] h) 6)
    with (byte (Z.lor (Z.land b6 0x0F) (byte (Z.shiftl (Z.land ver 0x0F) 4)))).
  change (at_ (masked ver [b0; b1; b2; b3; b4; b5; b6; b7; b8; b9; b10;
                           b11; b12; b13; b14; b15] h) 8)
    with (byte (Z.lor (Z.land b8 0x3F) 0x80)).
  rewrite version_nibble_keeps_low, variant_keeps_low. reflexivity.
Qed.

(** A decidable form of [wf_uuid], to check concrete identifiers. *)
Lemma wf_uuid_check (u : UUID) :
  (Nat.eqb (List.length u) 16 &&
   forallb (fun b => (0 <=? b) && (b <? 256)) u)%bool = true ->
  wf_uuid u.
Proof.
  intros H. apply andb_true_iff in H. destruct H as [HL HF].
  split; [apply Nat.eqb_eq; exact HL|].
  apply Forall_forall. intros b Hb.
  rewrite forallb_forall in HF. specialize (HF b Hb).
  apply andb_true_iff in HF. destruct HF as [H1 H2].
  apply Z.leb_le in H1. apply Z.ltb_lt in H2. split; assumption.
Defined.

Lemma wf_key_check (k : Key) :
  ((0 <=? K0 k) && (K0 k <? 2 ^ 64) &&
   ((0 <=? K1 k) && (K1 k <? 2 ^ 64)))%bool = true ->
  wf_key k.
Proof.
  intros H. apply andb_true_iff in H. destruct H as [H0 H1].
  apply andb_true_iff in H0, H1. destruct H0 as [A B], H1 as [C D].
  apply Z.leb_le in A, C. apply Z.ltb_lt in B, D.
  split; split; assumption.
Defined.

Lemma wf_example_v7 : wf_uuid example_v7.
Proof. apply wf_uuid_check. reflexivity. Defined.

Lemma wf_example_facade : wf_uuid example_facade.
Proof. apply wf_uuid_check. reflexivity. Defined.

Lemma wf_example_key : wf_key example_key.
Proof. apply wf_key_check. reflexivity. Defined.

(** * The facade transform and the PRF *)

(** C1 (round trip): for every 16-byte identifier [x] and every key [k],
    [Encode x k] returns a facade [e] and [Decode e k] returns an identifier
    [d] whose timestamp field (bytes 0-5), rand_a bits and rand_b bits are
    those of [x]; the version nibble of [d] is 7 and its variant bits are
    binary 10, whatever they were in [x]. *)
Theorem Decode_Encode_roundtrip (x : UUID) (k : Key) :
  wf_uuid x ->
  exists e d,
    Encode x k = Done e /\ Decode e k = Done d /\
    timestamp d = timestamp x /\
    rand_a d = rand_a x /\ rand_b d = rand_b x /\
    Version d = 7 /\ variant_bits d = 2.
Proof.
  intros W. pose proof W as [L F].
  destruct (siphash24_done (sipmsg x) (K0 k) (K1 k)) as (h & Hh & _).
  exists (masked 4 x h), (masked 7 (masked 4 x h) h).
  assert (L4 : List.length (masked 4 x h) = 16%nat) by (apply masked_length, L).
  split; [apply Encode_masked; assumption|].
  split.
  { apply Decode_masked; [assumption|]. rewrite sipmsg_masked by assumption.
    exact Hh. }
  split; [apply timestamp_masked_twice, W|].
  split; [rewrite !rand_a_masked by assumption; reflexivity|].
  split; [rewrite !rand_b_masked by assumption; reflexivity|].
  split; [apply Version_masked, L4 | apply variant_masked, L4].
Qed.

Lemma Decode_Encode_roundtrip_witness :
  wf_uuid example_v7 /\
  exists e d,
    Encode example_v7 example_key = Done e /\ Decode e example_key = Done d /\
    timestamp d = timestamp example_v7 /\
    rand_a d = rand_a example_v7 /\ rand_b d = rand_b example_v7 /\
    Version d = 7 /\ variant_bits d = 2.
Proof.
  split; [exact wf_example_v7|].
  apply (Decode_Encode_roundtrip example_v7 example_key). exact wf_example_v7.
Defined.

(** The version nibble is not carried through a round trip: the all-zero
    identifier (version 0, variant 00) comes back tagged 7 / 10. *)
Example roundtrip_retags_zero :
  exists e d,
    Encode UUID_zero example_key = Done e /\ Decode e example_key = Done d /\
    Version UUID_zero = 0 /\ Version d = 7 /\
    variant_bits UUID_zero = 0 /\ variant_bits d = 2 /\ d <> UUID_zero.
Proof.
  eexists. eexists.
  split; [vm_compute; reflexivity|].
  split; [vm_compute; reflexivity|].
  repeat split; try reflexivity. discriminate.
Qed.

(** C3 (format tagging): for every 16-byte identifier and every key, the
    output of [Encode] has version nibble 4 and variant bits binary 10, and
    the output of [Decode] has version nibble 7 and variant bits binary 10,
    whatever the version and variant fields of the input. *)
Theorem format_tagging (x : UUID) (k : Key) :
  wf_uuid x ->
  (exists e, Encode x k = Done e /\ Version e = 4 /\ variant_bits e = 2) /\
  (exists d, Decode x k = Done d /\ Version d = 7 /\ variant_bits d = 2).
Proof.
  intros [L F].
  destruct (siphash24_done (sipmsg x) (K0 k) (K1 k)) as (h & Hh & _).
  split.
  - exists (masked 4 x h).
    split; [apply Encode_masked; assumption|].
    split; [apply Version_masked, L | apply variant_masked, L].
  - exists (masked 7 x h).
    split; [apply Decode_masked; assumption|].
    split; [apply Version_masked, L | apply variant_masked, L].
Qed.

Lemma format_tagging_witness :
  wf_uuid example_facade /\
  (exists e, Encode example_facade example_key = Done e /\
             Version e = 4 /\ variant_bits e = 2) /\
  (exists d, Decode example_facade example_key = Done d /\
             Version d = 7 /\ variant_bits d = 2).
Proof.
  split; [exact wf_example_facade|].
  apply (format_tagging example_facade example_key). exact wf_example_facade.
Defined.

(** C4 (field isolation): for every 16-byte identifier [x] and key [k],
    [Encode x k] has the rand_a bits (low nibble of byte 6, byte 7) and the
    rand_b bits (low six bits of byte 8, bytes 9-15) of [x]; so it can differ
    from [x] only in bytes 0-5, the high nibble of byte 6 and the top two
    bits of byte 8. *)
Theorem Encode_field_isolation (x : UUID) (k : Key) :
  wf_uuid x ->
  exists e,
    Encode x k = Done e /\ List.length e = 16%nat /\
    Z.land (at_ e 6) 0x0F = Z.land (at_ x 6) 0x0F /\
    at_ e 7 = at_ x 7 /\
    Z.land (at_ e 8) 0x3F = Z.land (at_ x 8) 0x3F /\
    skipn 9 e = skipn 9 x /\
    rand_a e = rand_a x /\ rand_b e = rand_b x.
Proof.
  intros [L F].
  destruct (siphash24_done (sipmsg x) (K0 k) (K1 k)) as (h & Hh & _).
  exists (masked 4 x h).
  pose proof (rand_a_masked 4 x h L) as Ha.
  pose proof (rand_b_masked 4 x h L) as Hb.
  split; [apply Encode_masked; assumption|].
  split; [apply masked_length, L|].
  split; [exact (f_equal fst Ha)|].
  split; [exact (f_equal snd Ha)|].
  split; [exact (f_equal fst Hb)|].
  split; [exact (f_equal snd Hb)|].
  split; assumption.
Qed.

Lemma Encode_field_isolation_witness :
  wf_uuid example_v7 /\
  exists e,
    Encode example_v7 example_key = Done e /\ List.length e = 16%nat /\
    Z.land (at_ e 6) 0x0F = Z.land (at_ example_v7 6) 0x0F /\
    at_ e 7 = at_ example_v7 7 /\
    Z.land (at_ e 8) 0x3F = Z.land (at_ example_v7 8) 0x3F /\
    skipn 9 e = skipn 9 example_v7 /\
    rand_a e = rand_a example_v7 /\ rand_b e = rand_b example_v7.
Proof.
  split; [exact wf_example_v7|].
  apply (Encode_field_isolation example_v7 example_key). exact wf_example_v7.
Defined.

(** C5 (stable PRF message): for every 16-byte identifier [x] and key [k],
    the 10-byte message [msg[0] = byte6 & 0x0F, msg[1] = byte7,
    msg[2] = byte8 & 0x3F, msg[3..9] = bytes 9..15] built from [Encode x k] is
    the message built from [x], and likewise for [Decode x k]; hence the PRF
    is applied to the same input, and the same 48-bit mask is derived, on
    both sides of the transform. *)
Theorem sip_input_stable (x : UUID) (k : Key) (msg : list Z) :
  wf_uuid x ->
  exists e d,
    Encode x k = Done e /\ Decode x k = Done d /\
    buildSipInputFromV7 e msg = buildSipInputFromV7 x msg /\
    buildSipInputFromV7 d msg = buildSipInputFromV7 x msg /\
    sipmsg x = [Z.land (at_ x 6) 0x0F; at_ x 7; Z.land (at_ x 8) 0x3F;
                at_ x 9; at_ x 10; at_ x 11; at_ x 12; at_ x 13; at_ x 14;
                at_ x 15] /\
    siphash24 (sipmsg e) (K0 k) (K1 k) = siphash24 (sipmsg x) (K0 k) (K1 k) /\
    siphash24 (sipmsg d) (K0 k) (K1 k) = siphash24 (sipmsg x) (K0 k) (K1 k).
Proof.
  intros [L F].
  destruct (siphash24_done (sipmsg x) (K0 k) (K1 k)) as (h & Hh & _).
  exists (masked 4 x h), (masked 7 x h).
  split; [apply Encode_masked; assumption|].
  split; [apply Decode_masked; assumption|].
  split; [apply buildSipInput_masked, L|].
  split; [apply buildSipInput_masked, L|].
  split; [apply sipmsg_contents, L|].
  rewrite !sipmsg_masked by assumption. split; reflexivity.
Qed.

Lemma sip_input_stable_witness :
  wf_uuid example_v7 /\
  exists e d,
    Encode example_v7 example_key = Done e /\
    Decode example_v7 example_key = Done d /\
    buildSipInputFromV7 e (repeat 0 10)
    = buildSipInputFromV7 example_v7 (repeat 0 10) /\
    buildSipInputFromV7 d (repeat 0 10)
    = buildSipInputFromV7 example_v7 (repeat 0 10) /\
    sipmsg example_v7
    = [Z.land (at_ example_v7 6) 0x0F; at_ example_v7 7;
       Z.land (at_ example_v7 8) 0x3F; at_ example_v7 9; at_ example_v7 10;
       at_ example_v7 11; at_ example_v7 12; at_ example_v7 13;
       at_ example_v7 14; at_ example_v7 15] /\
    siphash24 (sipmsg e) (K0 example_key) (K1 example_key)
    = siphash24 (sipmsg example_v7) (K0 example_key) (K1 example_key) /\
    siphash24 (sipmsg d) (K0 example_key) (K1 example_key)
    = siphash24 (sipmsg example_v7) (K0 example_key) (K1 example_key).
Proof.
  split; [exact wf_example_v7|].
  apply (sip_input_stable example_v7 example_key (repeat 0 10)).
  exact wf_example_v7.
Defined.

(** C6 (concrete scenario): with key [k0 = 0x0123456789abcdef],
    [k1 = 0xfedcba9876543210], [Encode] maps
    [01 8f 2d 9f 9a 2a 7d ef 8c 3f 7b 1a 2c 4d 5e 6f] to
    [24 63 c7 80 7f ca 4d ef 8c 3f 7b 1a 2c 4d 5e 6f], and [Decode] maps that
    result back to the original sixteen bytes. *)
Theorem example_scenario :
  Encode example_v7 example_key = Done example_facade /\
  Decode example_facade example_key = Done example_v7.
Proof. split; vm_compute; reflexivity. Qed.

(** The same scenario in text form, as [Example] prints it. *)
Example example_scenario_text :
  Parse (bytes_of "018f2d9f-9a2a-7def-8c3f-7b1a2c4d5e6f")
  = Done (example_v7, None) /\
  Version example_v7 = 7 /\
  UUID_String example_facade
  = Done (bytes_of "2463c780-7fca-4def-8c3f-7b1a2c4d5e6f") /\
  UUID_String example_v7
  = Done (bytes_of "018f2d9f-9a2a-7def-8c3f-7b1a2c4d5e6f").
Proof. repeat split; vm_compute; reflexivity. Qed.

(** More fuel than needed does not change the result of the block loop. *)
Lemma sip_blocks_more_fuel (f : nat) :
  forall (f' : nat) (inp : list Z) (endp i : Z) (v r : sipstate),
    sip_blocks f inp endp i v = Done r -> (f <= f')%nat ->
    sip_blocks f' inp endp i v = Done r.
Proof.
  induction f as [|f IH]; intros f' inp endp i v r H Hle.
  - cbn [sip_blocks] in H. destruct f'; cbn [sip_blocks];
      destruct (i <? endp); try discriminate; assumption.
  - destruct f' as [|f']; [lia|].
    cbn [sip_blocks] in H |- *.
    destruct (i <? endp); [|assumption].
    destruct (slice_from inp i) as [p| |]; cbn [bind] in H |- *;
      try discriminate.
    destruct (rd64le p) as [m| |]; cbn [bind] in H |- *; try discriminate.
    destruct v as [[[v0 v1] v2] v3].
    destruct (rounds 2 (v0, v1, v2, Z.lxor v3 m)) as [[[w0 w1] w2] w3].
    apply IH; [assumption | lia].
Qed.

(** The hash does not depend on the fuel, once there is enough of it. *)
Lemma siphash24_fuel_stable (fuel : nat) (inp : list Z) (k0 k1 : Z) :
  (List.length inp <= fuel)%nat ->
  siphash24_fuel fuel inp k0 k1 = siphash24 inp k0 k1.
Proof.
  intros Hle. unfold siphash24, siphash24_fuel.
  set (st := (Z.lxor 0x736f6d6570736575 k0, Z.lxor 0x646f72616e646f6d k1,
              Z.lxor 0x6c7967656e657261 k0, Z.lxor 0x7465646279746573 k1)).
  destruct (sip_blocks_done (List.length inp) inp (Z.ldiff (len inp) 7) 0 st)
    as (v & Ev & _).
  - lia.
  - reflexivity.
  - rewrite ldiff_7, Z.mul_comm. apply Z.mod_mul. lia.
  - rewrite ldiff_7. pose proof (Z.mul_div_le (len inp) 8).
    pose proof (len_nonneg inp). lia.
  - rewrite ldiff_7. pose proof (Z.mul_div_le (len inp) 8).
    pose proof (len_nonneg inp). unfold len in *. lia.
  - rewrite (sip_blocks_more_fuel _ fuel _ _ _ _ _ Ev Hle). rewrite Ev.
    reflexivity.
Qed.

(** C7 (totality and determinism): for every 16-byte identifier, every key
    and every byte message, [Encode] and [Decode] return a 16-byte identifier
    and the PRF returns a 64-bit value: no panic, no exhausted fuel and no
    error result, whatever the version nibble of the input; and equal inputs
    give equal outputs. *)
Theorem core_total_deterministic (x : UUID) (k : Key) (inp : list Z) :
  wf_uuid x -> wf_key k -> Forall is_byte inp ->
  (exists e, Encode x k = Done e /\ wf_uuid e) /\
  (exists d, Decode x k = Done d /\ wf_uuid d) /\
  (exists h, siphash24 inp (K0 k) (K1 k) = Done h /\ is_u64 h) /\
  (forall (x' : UUID) (k' : Key) (inp' : list Z),
      x' = x -> k' = k -> inp' = inp ->
      Encode x' k' = Encode x k /\ Decode x' k' = Decode x k /\
      siphash24 inp' (K0 k') (K1 k') = siphash24 inp (K0 k) (K1 k)).
Proof.
  intros W [U0 U1] HF. pose proof W as [L F].
  destruct (siphash24_done (sipmsg x) (K0 k) (K1 k)) as (h & Hh & _).
  split.
  { exists (masked 4 x h). split; [apply Encode_masked; assumption|].
    apply masked_wf, W. }
  split.
  { exists (masked 7 x h). split; [apply Decode_masked; assumption|].
    apply masked_wf, W. }
  split.
  { destruct (siphash24_done inp (K0 k) (K1 k)) as (h' & Hh' & R).
    exists h'. split; [exact Hh' | apply R; assumption]. }
  intros x' k' inp' -> -> ->. repeat split; reflexivity.
Qed.

Lemma core_total_deterministic_witness :
  wf_uuid example_facade /\ wf_key example_key /\
  Forall is_byte (test_msg 13) /\
  (exists e, Encode example_facade example_key = Done e /\ wf_uuid e) /\
  (exists d, Decode example_facade example_key = Done d /\ wf_uuid d) /\
  (exists h, siphash24 (test_msg 13) (K0 example_key) (K1 example_key)
             = Done h /\ is_u64 h) /\
  (forall (x' : UUID) (k' : Key) (inp' : list Z),
      x' = example_facade -> k' = example_key -> inp' = test_msg 13 ->
      Encode x' k' = Encode example_facade example_key /\
      Decode x' k' = Decode example_facade example_key /\
      siphash24 inp' (K0 k') (K1 k')
      = siphash24 (test_msg 13) (K0 example_key) (K1 example_key)).
Proof.
  assert (HF : Forall is_byte (test_msg 13)).
  { apply Forall_forall. intros b Hb. unfold is_byte.
    cbv [test_msg seq map] in Hb. cbn [In] in Hb.
    repeat (destruct Hb as [<-|Hb]; [vm_compute; split; congruence|]).
    destruct Hb. }
  split; [exact wf_example_facade|].
  split; [exact wf_example_key|].
  split; [exact HF|].
  apply (core_total_deterministic example_facade example_key (test_msg 13)).
  - exact wf_example_facade.
  - exact wf_example_key.
  - exact HF.
Defined.

(** C2 (PRF test vectors): with the key [k0 = 0x0706050403020100],
    [k1 = 0x0f0e0d0c0b0a0908] and the message [[0, 1, ..., L-1]], [siphash24]
    returns the published SipHash-2-4 64-bit output (the little-endian value
    of the L-th row of the reference table) for every length [L] from 0 to
    13. *)
Theorem siphash24_reference_vectors (L : nat) :
  (L <= 13)%nat ->
  exists expected,
    leU64 (nth L vbytes []) = Done expected /\
    siphash24 (test_msg L) test_k0 test_k1 = Done expected.
Proof.
  intros HL.
  do 14 (destruct L as [|L];
         [eexists; split; vm_compute; reflexivity|]).
  lia.
Qed.

Lemma siphash24_reference_vectors_witness :
  (10 <= 13)%nat /\
  exists expected,
    leU64 (nth 10 vbytes []) = Done expected /\
    siphash24 (test_msg 10) test_k0 test_k1 = Done expected.
Proof.
  split; [lia|].
  apply (siphash24_reference_vectors 10). lia.
Defined.

(** * The text form *)

(** ** Parse *)

Lemma index_nth (l : list Z) (i : Z) :
  0 <= i < len l -> index l i = Done (nth (Z.to_nat i) l 0).
Proof.
  intros Hi. destruct (index_done l i Hi) as (x & E & N).
  rewrite E. f_equal. symmetry. apply nth_error_nth. exact N.
Qed.

Lemma len_upd (n : nat) (v : Z) (l : list Z) : len (upd n v l) = len l.
Proof.
  unfold len. f_equal. revert n. induction l as [|h t IH]; intros n.
  - reflexivity.
  - destruct n; simpl; [reflexivity | f_equal; apply IH].
Qed.

Lemma store_done (l : list Z) (i v : Z) :
  0 <= i < len l -> store l i v = Done (upd (Z.to_nat i) v l).
Proof.
  intros Hi. unfold store.
  replace ((i <? 0) || (len l <=? i)) with false; [reflexivity|].
  symmetry. apply orb_false_iff. split; [apply Z.ltb_ge | apply Z.leb_gt]; lia.
Qed.

Lemma hexval_neg (c : Z) : (hexval c <? 0) = negb (is_hex c).
Proof.
  unfold hexval, is_hex, byte.
  destruct ((48 <=? c) && (c <=? 57)); cbn [orb negb].
  { apply Z.ltb_ge. apply Z.mod_pos_bound. lia. }
  destruct ((97 <=? c) && (c <=? 102)); cbn [orb negb].
  { apply Z.ltb_ge. apply Z.mod_pos_bound. lia. }
  destruct ((65 <=? c) && (c <=? 70)); cbn [orb negb].
  { apply Z.ltb_ge. apply Z.mod_pos_bound. lia. }
  reflexivity.
Qed.

Lemma Parse_pos_range (i : Z) : 0 <= i < 16 -> 0 <= Parse_pos i /\ Parse_pos i + 1 < 36.
Proof.
  intros Hi. unfold Parse_pos.
  destruct (Z.ltb_spec i 4); [lia|].
  destruct (Z.ltb_spec i 6); [lia|].
  destruct (Z.ltb_spec i 8); [lia|].
  destruct (Z.ltb_spec i 10); lia.
Qed.

(** One iteration of the loop of [Parse]. *)
Lemma Parse_loop_step (n : nat) (i : Z) (s : list Z) (out : UUID) :
  len s = 36 -> 0 <= i < 16 -> len out = 16 ->
  Parse_loop (S n) i s out
  = if pair_ok s i
    then Parse_loop n (i + 1) s (upd (Z.to_nat i) (hex_byte s i) out)
    else Done (UUID_zero, Some ErrInvalidHex).
Proof.
  intros Hs Hi Ho. cbn [Parse_loop].
  pose proof (Parse_pos_range i Hi) as [P0 P1].
  rewrite (index_nth s (Parse_pos i)) by lia. cbn [bind].
  rewrite (index_nth s (Parse_pos i + 1)) by lia. cbn [bind].
  rewrite !hexval_neg. unfold pair_ok, hi_char, lo_char.
  rewrite <- negb_andb.
  destruct (is_hex (nth (Z.to_nat (Parse_pos i)) s 0) &&
            is_hex (nth (Z.to_nat (Parse_pos i + 1)) s 0)); cbn [negb].
  - rewrite store_done by lia. reflexivity.
  - reflexivity.
Qed.

Lemma Parse_loop_spec (s : list Z) :
  len s = 36 ->
  forall (n : nat) (i : Z) (out : UUID),
    0 <= i -> i + Z.of_nat n = 16 -> len out = 16 ->
    Parse_loop n i s out
    = if forallb (pair_ok s) (zrange i n)
      then Done (fill s (zrange i n) out, None)
      else Done (UUID_zero, Some ErrInvalidHex).
Proof.
  intros Hs. induction n as [|n IH]; intros i out Hi Hn Ho.
  - reflexivity.
  - rewrite Parse_loop_step by lia.
    cbn [zrange forallb fill fold_left].
    destruct (pair_ok s i); cbn [andb]; [|reflexivity].
    rewrite IH; [reflexivity | lia | lia | rewrite len_upd; exact Ho].
Qed.

Lemma not_dash_or_eq (s : list Z) (p : Z) (rest : exec bool) :
  0 <= p < len s ->
  not_dash_or s p rest
  = if nth (Z.to_nat p) s 0 =? 45 then rest else Done true.
Proof.
  intros Hp. unfold not_dash_or. rewrite index_nth by assumption.
  cbn [bind]. destruct (nth (Z.to_nat p) s 0 =? 45); reflexivity.
Qed.

Lemma pairs_are_data_positions (s : list Z) :
  forallb (pair_ok s) (zrange 0 16) = data_ok s.
Proof.
  unfold data_ok, data_positions.
  cbn -[is_hex pair_ok]. unfold pair_ok. rewrite <- !andb_assoc. reflexivity.
Qed.

Lemma fill_is_parsed_bytes (s : list Z) :
  fill s (zrange 0 16) UUID_zero = parsed_bytes s.
Proof. reflexivity. Qed.

(** [Parse] as a cascade of the three checks. *)
Lemma Parse_cases (s : list Z) :
  Parse s
  = if negb (len s =? 36) then Done (UUID_zero, Some ErrInvalidLength)
    else if negb (hyphens_ok s) then Done (UUID_zero, Some ErrInvalidFormat)
    else if negb (data_ok s) then Done (UUID_zero, Some ErrInvalidHex)
    else Done (parsed_bytes s, None).
Proof.
  unfold Parse. destruct (Z.eqb_spec (len s) 36) as [Hs|Hs]; cbn [negb];
    [|reflexivity].
  rewrite !not_dash_or_eq by lia. unfold hyphens_ok.
  change (Z.to_nat 8) with 8%nat. change (Z.to_nat 13) with 13%nat.
  change (Z.to_nat 18) with 18%nat. change (Z.to_nat 23) with 23%nat.
  destruct (nth 8 s 0 =? 45); cbn [andb negb bind]; [|reflexivity].
  destruct (nth 13 s 0 =? 45); cbn [andb negb bind]; [|reflexivity].
  destruct (nth 18 s 0 =? 45); cbn [andb negb bind]; [|reflexivity].
  destruct (nth 23 s 0 =? 45); cbn [andb negb bind]; [|reflexivity].
  rewrite (Parse_loop_spec s Hs 16 0 UUID_zero) by (reflexivity || lia).
  rewrite pairs_are_data_positions, fill_is_parsed_bytes.
  destruct (data_ok s); reflexivity.
Qed.

Lemma parsed_bytes_wf (s : list Z) : wf_uuid (parsed_bytes s).
Proof.
  split; [reflexivity|]. unfold parsed_bytes.
  apply Forall_forall. intros b Hb. apply in_map_iff in Hb.
  destruct Hb as (k & <- & _). apply is_byte_byte.
Qed.

(** C8 (Parse and its errors): [Parse] succeeds exactly on the strings of 36
    characters that have hyphens at offsets 8, 13, 18, 23 and hexadecimal
    digits at the 32 other offsets.  A length other than 36 gives
    [ErrInvalidLength]; with the right length, a misplaced hyphen gives
    [ErrInvalidFormat]; with the right length and hyphens, a character that
    is not a hex digit at a data position gives [ErrInvalidHex]; the three
    errors are distinct and come with the zero identifier. *)
Theorem Parse_accepts_exactly_canonical (s : list Z) :
  ((exists u, Parse s = Done (u, None)) <-> canonical s = true) /\
  (canonical s = true -> Parse s = Done (parsed_bytes s, None)) /\
  (len s <> 36 -> Parse s = Done (UUID_zero, Some ErrInvalidLength)) /\
  (len s = 36 -> hyphens_ok s = false ->
   Parse s = Done (UUID_zero, Some ErrInvalidFormat)) /\
  (len s = 36 -> hyphens_ok s = true -> data_ok s = false ->
   Parse s = Done (UUID_zero, Some ErrInvalidHex)) /\
  ErrInvalidLength <> ErrInvalidFormat /\
  ErrInvalidFormat <> ErrInvalidHex /\
  ErrInvalidLength <> ErrInvalidHex.
Proof.
  rewrite Parse_cases. unfold canonical.
  destruct (Z.eqb_spec (len s) 36) as [Hs|Hs]; cbn [negb andb].
  - destruct (hyphens_ok s); cbn [negb andb].
    + destruct (data_ok s); cbn [negb].
      * split; [split; [reflexivity | intros _; eexists; reflexivity]|].
        repeat split; try reflexivity; try discriminate; try contradiction.
      * split; [split; [intros [u Hu]; discriminate Hu | discriminate]|].
        repeat split; try reflexivity; try discriminate; try contradiction.
    + split; [split; [intros [u Hu]; discriminate Hu | discriminate]|].
      repeat split; try reflexivity; try discriminate; try contradiction.
  - split; [split; [intros [u Hu]; discriminate Hu | discriminate]|].
    repeat split; try reflexivity; try discriminate; try contradiction.
Qed.

(** ** String *)

Lemma In_zrange (n : nat) :
  forall (i k : Z), i <= k < i + Z.of_nat n -> In k (zrange i n).
Proof.
  induction n as [|n IH]; intros i k Hk; [lia|].
  cbn [zrange]. destruct (Z.eq_dec i k) as [E|E]; [left; exact E|].
  right. apply IH. lia.
Qed.

(** A property of the sixteen nibble values holds of every [x & 0xF]. *)
Lemma nibble_cases (P : Z -> Prop) :
  Forall P (zrange 0 16) -> forall x, P (Z.land x 0xF).
Proof.
  intros H x. rewrite Forall_forall in H. apply H, In_zrange.
  change 0xF with (Z.ones 4). rewrite Z.land_ones by lia.
  pose proof (Z.mod_pos_bound x (2 ^ 4) ltac:(lia)) as Hr.
  change (Z.of_nat 16) with 16. change (2 ^ 4) with 16 in *. lia.
Qed.

Ltac nibbles := cbn [zrange]; repeat (apply Forall_cons; [reflexivity|]);
                apply Forall_nil.

Lemma hexd_index (x : Z) :
  index hexd (Z.land x 0xF) = Done (hexchar (Z.land x 0xF)).
Proof.
  apply nibble_cases with (P := fun n => index hexd n = Done (hexchar n)).
  nibbles.
Qed.

Lemma hexval_hexchar (x : Z) : hexval (hexchar (Z.land x 0xF)) = Z.land x 0xF.
Proof.
  apply nibble_cases with (P := fun n => hexval (hexchar n) = n). nibbles.
Qed.

Lemma is_lower_hex_hexchar (x : Z) :
  is_lower_hex (hexchar (Z.land x 0xF)) = true.
Proof.
  apply nibble_cases with (P := fun n => is_lower_hex (hexchar n) = true).
  nibbles.
Qed.

Lemma is_lower_hex_is_hex (c : Z) : is_lower_hex c = true -> is_hex c = true.
Proof. unfold is_lower_hex, is_hex. intros ->. reflexivity. Qed.

Lemma is_hex_hexchar (x : Z) : is_hex (hexchar (Z.land x 0xF)) = true.
Proof. apply is_lower_hex_is_hex, is_lower_hex_hexchar. Qed.

(** The two nibbles of a byte put it back together. *)
Lemma byte_of_nibbles (b : Z) :
  is_byte b ->
  byte (Z.lor (Z.shiftl (Z.land (Z.shiftr b 4) 0xF) 4) (Z.land b 0xF)) = b.
Proof.
  intros Hb. rewrite <- (Z.mod_small b (2 ^ 8)) by exact Hb.
  unfold byte. change 256 with (2 ^ 8). change 0xF with (Z.ones 4). bits.
  rewrite ?Z.mod_pow2_bits_low by lia. btauto.
Qed.

(** One iteration of the loop of [String]. *)
Lemma String_loop_step (n : nat) (i : Z) (u : UUID) (buf : list Z) (j b : Z) :
  index u i = Done b ->
  ((0 <=? j) && (j + (if is_dpos i then 3 else 2) <=? len buf))%bool = true ->
  String_loop (S n) i u buf j
  = let j1 := if is_dpos i then j + 1 else j in
    let buf1 := if is_dpos i then upd (Z.to_nat j) 45 buf else buf in
    String_loop n (i + 1) u
      (upd (Z.to_nat (j1 + 1)) (hexchar (Z.land b 0xF))
         (upd (Z.to_nat j1) (hexchar (Z.land (Z.shiftr b 4) 0xF)) buf1))
      (j1 + 1 + 1).
Proof.
  intros Hb Hj. apply andb_true_iff in Hj. destruct Hj as [J0 J1].
  apply Z.leb_le in J0, J1.
  cbn [String_loop].
  change ((i =? at_ dpos 0) || (i =? at_ dpos 1) || (i =? at_ dpos 2) ||
          (i =? at_ dpos 3)) with (is_dpos i).
  destruct (is_dpos i); cbv zeta.
  - rewrite (store_done buf j) by lia. cbn [bind].
    rewrite Hb. cbn [bind]. rewrite !hexd_index. cbn [bind].
    rewrite store_done by (rewrite len_upd; lia). cbn [bind].
    rewrite store_done by (rewrite !len_upd; lia). reflexivity.
  - cbn [bind]. rewrite Hb. cbn [bind]. rewrite !hexd_index. cbn [bind].
    rewrite store_done by lia. cbn [bind].
    rewrite store_done by (rewrite !len_upd; lia). reflexivity.
Qed.

Lemma String_formatted (u : UUID) :
  List.length u = 16%nat -> UUID_String u = Done (formatted u).
Proof.
  intros L. explode16 u L. unfold UUID_String. cbv zeta.
  do 16 (erewrite String_loop_step by reflexivity;
         cbn -[String_loop hexchar Z.land Z.shiftr]).
  reflexivity.
Qed.

Lemma formatted_len (u : UUID) : List.length u = 16%nat -> len (formatted u) = 36.
Proof. intros L. explode16 u L. reflexivity. Qed.

Lemma formatted_hyphens (u : UUID) :
  List.length u = 16%nat -> hyphens_ok (formatted u) = true.
Proof. intros L. explode16 u L. reflexivity. Qed.

Lemma formatted_lower (u : UUID) :
  List.length u = 16%nat -> data_lower (formatted u) = true.
Proof.
  intros L. explode16 u L.
  cbn -[is_lower_hex hexchar Z.land Z.shiftr].
  rewrite !is_lower_hex_hexchar. reflexivity.
Qed.

Lemma data_lower_ok (s : list Z) : data_lower s = true -> data_ok s = true.
Proof.
  unfold data_lower, data_ok. rewrite !forallb_forall.
  intros H p Hp. apply is_lower_hex_is_hex, H, Hp.
Qed.

Lemma parsed_formatted (u : UUID) : wf_uuid u -> parsed_bytes (formatted u) = u.
Proof.
  intros [L F]. explode16 u L. forall_bytes F.
  cbv -[hexval hexchar byte Z.land Z.shiftr Z.lor Z.shiftl].
  rewrite !hexval_hexchar. rewrite !byte_of_nibbles by assumption.
  reflexivity.
Qed.

(** C9 (String then Parse): for every 16-byte identifier [u], [String]
    returns a string of 36 characters with hyphens at offsets 8, 13, 18, 23
    and lowercase hex digits elsewhere, and [Parse] of that string returns
    [u] with a nil error. *)
Theorem Parse_String_roundtrip (u : UUID) :
  wf_uuid u ->
  exists s,
    UUID_String u = Done s /\
    len s = 36 /\ hyphens_ok s = true /\ data_lower s = true /\
    Parse s = Done (u, None).
Proof.
  intros W. pose proof W as [L F].
  exists (formatted u).
  split; [apply String_formatted, L|].
  split; [apply formatted_len, L|].
  split; [apply formatted_hyphens, L|].
  split; [apply formatted_lower, L|].
  rewrite Parse_cases.
  rewrite formatted_len, formatted_hyphens by exact L.
  rewrite (data_lower_ok _ (formatted_lower u L)).
  rewrite parsed_formatted by exact W. reflexivity.
Qed.

Lemma Parse_String_roundtrip_witness :
  wf_uuid example_facade /\
  exists s,
    UUID_String example_facade = Done s /\
    len s = 36 /\ hyphens_ok s = true /\ data_lower s = true /\
    Parse s = Done (example_facade, None).
Proof.
  split; [exact wf_example_facade|].
  apply (Parse_String_roundtrip example_facade). exact wf_example_facade.
Defined.

Lemma Parse_accepts_exactly_canonical_witness :
  canonical (bytes_of "018f2d9f-9a2a-7def-8c3f-7b1a2c4d5e6f") = true /\
  Parse (bytes_of "018f2d9f-9a2a-7def-8c3f-7b1a2c4d5e6f")
  = Done (parsed_bytes (bytes_of "018f2d9f-9a2a-7def-8c3f-7b1a2c4d5e6f"), None) /\
  len (bytes_of "018f2d9f") <> 36 /\
  Parse (bytes_of "018f2d9f") = Done (UUID_zero, Some ErrInvalidLength) /\
  hyphens_ok (bytes_of "018f2d9f-9a2a-7def-8c3f07b1a2c4d5e6f") = false /\
  Parse (bytes_of "018f2d9f-9a2a-7def-8c3f07b1a2c4d5e6f")
  = Done (UUID_zero, Some ErrInvalidFormat) /\
  data_ok (bytes_of "018f2d9f-9a2a-7def-8c3f-7b1a2c4d5e6g") = false /\
  Parse (bytes_of "018f2d9f-9a2a-7def-8c3f-7b1a2c4d5e6g")
  = Done (UUID_zero, Some ErrInvalidHex).
Proof.
  split; [reflexivity|].
  split.
  { apply (Parse_accepts_exactly_canonical
             (bytes_of "018f2d9f-9a2a-7def-8c3f-7b1a2c4d5e6f")).
    reflexivity. }
  split; [discriminate|].
  split.
  { apply (Parse_accepts_exactly_canonical (bytes_of "018f2d9f")).
    discriminate. }
  split; [reflexivity|].
  split.
  { apply (Parse_accepts_exactly_canonical
             (bytes_of "018f2d9f-9a2a-7def-8c3f07b1a2c4d5e6f"));
      reflexivity. }
  split; [reflexivity|].
  apply (Parse_accepts_exactly_canonical
           (bytes_of "018f2d9f-9a2a-7def-8c3f-7b1a2c4d5e6g"));
    reflexivity.
Defined.

(** ** SetBytes and UnmarshalText *)

Lemma copy_full (dst src : list Z) :
  List.length dst = List.length src -> copy dst src = src.
Proof.
  intros E. unfold copy. rewrite E, Nat.min_id.
  rewrite firstn_all. rewrite <- E, skipn_all. apply app_nil_r.
Qed.

Lemma UnmarshalText_cases (u : UUID) (text : list Z) :
  UnmarshalText u text
  = if negb (len text =? 36) then Done (u, Some ErrInvalidLength)
    else if negb (hyphens_ok text) then Done (u, Some ErrInvalidFormat)
    else if negb (data_ok text) then Done (u, Some ErrInvalidHex)
    else Done (parsed_bytes text, None).
Proof.
  unfold UnmarshalText. rewrite Parse_cases.
  destruct (negb (len text =? 36)); [reflexivity|].
  destruct (negb (hyphens_ok text)); [reflexivity|].
  destruct (negb (data_ok text)); reflexivity.
Qed.

(** C10 (setters are atomic): [SetBytes] returns [ErrInvalidByteSlice]
    exactly when the slice is not 16 bytes long, and [UnmarshalText] returns
    an error, the one [Parse] returns, exactly when the text is not a
    canonical identifier string; on an error the receiver keeps its value, on
    success it holds the 16 bytes copied, respectively parsed. *)
Theorem setters_atomic (u : UUID) (b text : list Z) :
  wf_uuid u ->
  (snd (SetBytes u b) = Some ErrInvalidByteSlice <-> len b <> 16) /\
  (len b <> 16 -> SetBytes u b = (u, Some ErrInvalidByteSlice)) /\
  (len b = 16 -> SetBytes u b = (b, None)) /\
  ((exists u' e, UnmarshalText u text = Done (u', Some e))
   <-> canonical text = false) /\
  (canonical text = false ->
   exists e, Parse text = Done (UUID_zero, Some e) /\
             UnmarshalText u text = Done (u, Some e)) /\
  (canonical text = true ->
   Parse text = Done (parsed_bytes text, None) /\
   UnmarshalText u text = Done (parsed_bytes text, None)).
Proof.
  intros [L F].
  assert (SB1 : len b <> 16 -> SetBytes u b = (u, Some ErrInvalidByteSlice)).
  { intros Hb. unfold SetBytes.
    destruct (Z.eqb_spec (len b) 16); [contradiction | reflexivity]. }
  assert (SB2 : len b = 16 -> SetBytes u b = (b, None)).
  { intros Hb. unfold SetBytes. rewrite Hb. cbn [Z.eqb Pos.eqb negb].
    rewrite copy_full; [reflexivity|]. unfold len in Hb. lia. }
  split.
  { split.
    - intros H Hb. rewrite (SB2 Hb) in H. discriminate H.
    - intros Hb. rewrite (SB1 Hb). reflexivity. }
  split; [exact SB1|]. split; [exact SB2|].
  rewrite UnmarshalText_cases, Parse_cases. unfold canonical.
  destruct (len text =? 36); cbn [negb andb].
  - destruct (hyphens_ok text); cbn [negb andb].
    + destruct (data_ok text); cbn [negb].
      * split; [split; [intros (u' & e & H); discriminate H | discriminate]|].
        split; [discriminate | intros _; split; reflexivity].
      * split; [split; [reflexivity | intros _; eexists; eexists; reflexivity]|].
        split; [intros _; eexists; split; reflexivity | discriminate].
    + split; [split; [reflexivity | intros _; eexists; eexists; reflexivity]|].
      split; [intros _; eexists; split; reflexivity | discriminate].
  - split; [split; [reflexivity | intros _; eexists; eexists; reflexivity]|].
    split; [intros _; eexists; split; reflexivity | discriminate].
Qed.

Lemma setters_atomic_witness :
  wf_uuid example_v7 /\
  SetBytes example_v7 [1; 2; 3] = (example_v7, Some ErrInvalidByteSlice) /\
  SetBytes example_v7 example_facade = (example_facade, None) /\
  (exists e,
      Parse (bytes_of "2463c780-7fca-4def-8c3f-7b1a2c4d5e6") = Done (UUID_zero, Some e) /\
      UnmarshalText example_v7 (bytes_of "2463c780-7fca-4def-8c3f-7b1a2c4d5e6")
      = Done (example_v7, Some e)) /\
  UnmarshalText example_v7 (bytes_of "2463c780-7fca-4def-8c3f-7b1a2c4d5e6f")
  = Done (parsed_bytes (bytes_of "2463c780-7fca-4def-8c3f-7b1a2c4d5e6f"), None).
Proof.
  split; [exact wf_example_v7|].
  split.
  { apply (setters_atomic example_v7 [1; 2; 3] []); [exact wf_example_v7|].
    discriminate. }
  split.
  { apply (setters_atomic example_v7 example_facade []);
      [exact wf_example_v7 | reflexivity]. }
  split.
  { apply (setters_atomic example_v7 []
             (bytes_of "2463c780-7fca-4def-8c3f-7b1a2c4d5e6"));
      [exact wf_example_v7 | reflexivity]. }
  apply (setters_atomic example_v7 []
           (bytes_of "2463c780-7fca-4def-8c3f-7b1a2c4d5e6f"));
    [exact wf_example_v7 | reflexivity].
Defined.

(** ** Exact round trip on identifiers already tagged version 7 *)

Lemma version7_byte (b : Z) :
  is_byte b -> Z.land (Z.shiftr b 4) 0x0F = 7 ->
  byte (Z.lor (Z.land b 0x0F) (byte (Z.shiftl (Z.land 7 0x0F) 4))) = b.
Proof.
  intros Hb H7. pose proof (byte_of_nibbles b Hb) as E. rewrite H7 in E.
  rewrite Z.lor_comm. exact E.
Qed.

Lemma variant10_byte (b : Z) :
  is_byte b -> Z.shiftr b 6 = 2 ->
  byte (Z.lor (Z.land b 0x3F) 0x80) = b.
Proof.
  intros Hb H2.
  assert (E : byte (Z.lor (Z.land b 0x3F) (Z.shiftl (Z.shiftr b 6) 6)) = b).
  { rewrite <- (Z.mod_small b (2 ^ 8)) by exact Hb.
    unfold byte. change 256 with (2 ^ 8). change 0x3F with (Z.ones 6). bits.
    rewrite ?Z.mod_pow2_bits_low by lia. btauto. }
  rewrite H2 in E. exact E.
Qed.

(** On a version-7, variant-10 identifier the round trip is the identity. *)
Lemma Decode_Encode_v7_exact (x : UUID) (k : Key) :
  wf_uuid x -> Version x = 7 -> variant_bits x = 2 ->
  exists e, Encode x k = Done e /\ Decode e k = Done x.
Proof.
  intros W HV HR. pose proof W as [L F].
  destruct (siphash24_done (sipmsg x) (K0 k) (K1 k)) as (h & Hh & _).
  exists (masked 4 x h).
  assert (L4 : List.length (masked 4 x h) = 16%nat) by (apply masked_length, L).
  split; [apply Encode_masked; assumption|].
  rewrite (Decode_masked (masked 4 x h) k h L4)
    by (rewrite sipmsg_masked by assumption; exact Hh).
  f_equal. clear Hh L4.
  explode16 x L. forall_bytes F.
  unfold Version, variant_bits, at_, nth in HV, HR.
  unfold masked.
  rewrite be48_of_written. rewrite !unmask_byte by lia.
  rewrite be48_byte0, be48_byte1, be48_byte2, be48_byte3, be48_byte4,
    be48_byte5 by assumption.
  rewrite version_nibble_keeps_low, variant_keeps_low.
  rewrite (version7_byte b6) by assumption.
  rewrite (variant10_byte b8) by assumption.
  reflexivity.
Qed.
